(** * prompting.py: the prompt builder

    A shallow embedding of the script [prompting.py].  The script declares
    the enumeration [Classification], the pydantic model
    [MomentClassification], the template [prompt], and computes

      text = prompt.format(categories=..., json_schema=..., text=...).strip()

    The embedding follows the script statement by statement.  The library
    operations it calls ([str.format], [str.strip], [repr] of a list of
    strings, iteration over an [Enum], and pydantic's [schema_json]) are
    modelled as executable functions on the fragment the script uses. *)

From Stdlib Require Import List NArith Ascii String Bool Arith Lia.
Import ListNotations.

Local Open Scope N_scope.
Local Open Scope list_scope.

(** ** Python strings

    A Python [str] is a sequence of Unicode code points. *)

Definition char := N.
Definition str := list char.

(** A source literal.  Every literal of the script is ASCII. *)
Definition lit (s : string) : str :=
  map N_of_ascii (list_ascii_of_string s).

Definition dquote : char := 34.
Definition squote : char := 39.
Definition backslash : char := 92.
Definition lbrace : char := 123.
Definition rbrace : char := 125.

Definition str_eqb (a b : str) : bool :=
  if list_eq_dec N.eq_dec a b then true else false.

(** ** Outcomes of a Python computation *)

Inductive exn :=
| ValueError (msg : string)
| KeyError (key : str)
| Unmodelled (what : string).

Inductive result (A : Type) :=
| Ok (a : A)
| Raise (e : exn).

Arguments Ok {A} a.
Arguments Raise {A} e.

Definition bind {A B} (r : result A) (k : A -> result B) : result B :=
  match r with
  | Ok a => k a
  | Raise e => Raise e
  end.

Notation "x <- c ;; k" := (bind c (fun x => k))
  (at level 61, c at next level, right associativity).

(** ** Dictionaries

    A dictionary with string keys keeps insertion order: an association
    list, read by its first matching key. *)

Fixpoint assoc {A} (key : str) (l : list (str * A)) : option A :=
  match l with
  | [] => None
  | (k, v) :: rest => if str_eqb k key then Some v else assoc key rest
  end.

(** ** [str.strip()]

    With no argument, [strip] removes the characters for which
    [str.isspace] holds.  CPython's table of whitespace code points: *)

Definition py_isspace (c : char) : bool :=
  ((9 <=? c) && (c <=? 13))
  || ((28 <=? c) && (c <=? 32))
  || (c =? 133) || (c =? 160) || (c =? 5760)
  || ((8192 <=? c) && (c <=? 8202))
  || (c =? 8232) || (c =? 8233) || (c =? 8239) || (c =? 8287)
  || (c =? 12288).

Fixpoint lstrip (s : str) : str :=
  match s with
  | [] => []
  | c :: rest => if py_isspace c then lstrip rest else s
  end.

Definition rstrip (s : str) : str := rev (lstrip (rev s)).

Definition strip (s : str) : str := rstrip (lstrip s).

(** A string has outer whitespace when its first or its last character is
    a whitespace character. *)
Definition has_leading_ws (t : str) : Prop :=
  exists c rest, t = c :: rest /\ py_isspace c = true.

Definition has_trailing_ws (t : str) : Prop :=
  exists init c, t = init ++ [c] /\ py_isspace c = true.

(** ** Substrings *)

Fixpoint starts_with (sub s : str) : bool :=
  match sub, s with
  | [], _ => true
  | _ :: _, [] => false
  | a :: sub', b :: s' => (a =? b) && starts_with sub' s'
  end.

(** Start offsets of every occurrence of [sub] in [s], ascending. *)
Fixpoint occurrences_from (i : nat) (sub s : str) : list nat :=
  (if starts_with sub s then [i] else []) ++
  match s with
  | [] => []
  | _ :: s' => occurrences_from (S i) sub s'
  end.

Definition occurrences (sub s : str) : list nat := occurrences_from 0 sub s.

Definition ends_with (suffix s : str) : bool :=
  starts_with (rev suffix) (rev s).

(** [occurs_at sub s i]: [sub] is the slice of [s] that starts at offset [i]. *)
Definition occurs_at (sub s : str) (i : nat) : Prop :=
  exists before after, s = before ++ sub ++ after /\ List.length before = i.

(** [in_order parts t]: the parts occur in [t] one after the other, without
    overlap. *)
Fixpoint in_order (parts : list str) (t : str) : Prop :=
  match parts with
  | [] => True
  | p :: rest =>
      exists before after, t = before ++ p ++ after /\ in_order rest after
  end.

(** ** Python values handed to [str.format] *)

Inductive pyvalue :=
| VStr (s : str)
| VList (items : list str).

Definition hex_digit (d : N) : char :=
  if d <? 10 then 48 + d else 87 + d.

(** [repr] of a [str].  The quote is the apostrophe unless the string holds
    an apostrophe and no double quote.  An escape is a backslash followed by
    a letter, so the literals below are two characters long.  Deciding
    whether a code point above ASCII is printable needs the Unicode
    database, which is outside this model. *)
Definition repr_quote (s : str) : char :=
  if existsb (N.eqb squote) s && negb (existsb (N.eqb dquote) s)
  then dquote else squote.

Definition repr_char (quote c : char) : result str :=
  if (c =? quote) || (c =? backslash) then Ok [backslash; c]
  else if c =? 9 then Ok (lit "\t")
  else if c =? 10 then Ok (lit "\n")
  else if c =? 13 then Ok (lit "\r")
  else if (c <? 32) || (c =? 127)
       then Ok (lit "\x" ++ [hex_digit (c / 16); hex_digit (c mod 16)])
  else if c <? 127 then Ok [c]
  else Raise (Unmodelled "repr of a code point above ASCII").

Fixpoint repr_chars (quote : char) (s : str) : result str :=
  match s with
  | [] => Ok []
  | c :: rest =>
      e <- repr_char quote c ;;
      r <- repr_chars quote rest ;;
      Ok (e ++ r)
  end.

Definition repr_str (s : str) : result str :=
  let q := repr_quote s in
  body <- repr_chars q s ;;
  Ok (q :: body ++ [q]).

(** [", ".join(...)] over already rendered items. *)
Fixpoint join (sep : str) (items : list str) : str :=
  match items with
  | [] => []
  | [x] => x
  | x :: rest => x ++ sep ++ join sep rest
  end.

Fixpoint map_result {A B} (f : A -> result B) (l : list A) : result (list B) :=
  match l with
  | [] => Ok []
  | x :: rest =>
      y <- f x ;;
      ys <- map_result f rest ;;
      Ok (y :: ys)
  end.

(** [repr] of a list: bracketed, items separated by a comma and a space. *)
Definition repr_list (items : list str) : result str :=
  rs <- map_result repr_str items ;;
  Ok (lit "[" ++ join (lit ", ") rs ++ lit "]").

(** [format(value, "")]: a [str] formats as itself; a list has no
    [__format__] of its own and falls back to [str(value)], its [repr]. *)
Definition format_value (v : pyvalue) : result str :=
  match v with
  | VStr s => Ok s
  | VList items => repr_list items
  end.

(** ** [str.format]

    The format string is read left to right as a stream of literal runs and
    replacement fields, as CPython's markup iterator does.  [{{] and [}}]
    stand for one brace.  The fragment modelled here is the replacement
    field [{name}] looked up among the keyword arguments; a conversion
    ([!]), a format specification ([:]), attribute or index access and
    positional fields are reported as [Unmodelled]. *)

Inductive item :=
| Literal (s : str)
| Field (name : str)
| Stop (e : exn).

Inductive scan_state :=
| InText (acc : str)
| AfterOpen (acc : str)
| AfterClose (acc : str)
| InField (acc name : str).

Definition is_digit (c : char) : bool := (48 <=? c) && (c <=? 57).

(** One character of a replacement field; [acc] and [name] are reversed. *)
Definition field_step (acc name : str) (c : char)
  : list item * option scan_state :=
  if c =? rbrace then ([Literal (rev acc); Field (rev name)], Some (InText []))
  else if c =? lbrace
       then ([Stop (ValueError "unexpected '{' in field name")], None)
  else if (c =? 33) || (c =? 58)
       then ([Stop (Unmodelled "conversion or format specification")], None)
  else if (c =? 46) || (c =? 91)
       then ([Stop (Unmodelled "attribute or index access")], None)
  else ([], Some (InField acc (c :: name))).

Definition scan_step (st : scan_state) (c : char)
  : list item * option scan_state :=
  match st with
  | InText acc =>
      if c =? lbrace then ([], Some (AfterOpen acc))
      else if c =? rbrace then ([], Some (AfterClose acc))
      else ([], Some (InText (c :: acc)))
  | AfterOpen acc =>
      if c =? lbrace then ([], Some (InText (lbrace :: acc)))
      else field_step acc [] c
  | AfterClose acc =>
      if c =? rbrace then ([], Some (InText (rbrace :: acc)))
      else ([Stop (ValueError "Single '}' encountered in format string")], None)
  | InField acc name => field_step acc name c
  end.

Definition scan_end (st : scan_state) : list item :=
  match st with
  | InText acc => [Literal (rev acc)]
  | AfterOpen _ =>
      [Stop (ValueError "Single '{' encountered in format string")]
  | AfterClose _ =>
      [Stop (ValueError "Single '}' encountered in format string")]
  | InField _ _ =>
      [Stop (ValueError "expected '}' before end of string")]
  end.

Fixpoint scan (st : scan_state) (s : str) : list item :=
  match s with
  | [] => scan_end st
  | c :: rest =>
      let '(out, next) := scan_step st c in
      out ++ match next with
             | Some st' => scan st' rest
             | None => []
             end
  end.

Definition markup (fmt : str) : list item := scan (InText []) fmt.

(** Keyword arguments of a call, in the order they are written. *)
Definition kwargs := list (str * pyvalue).

(** The object a field name denotes.  The script passes keyword arguments
    only. *)
Definition get_field (name : str) (kw : kwargs) : result pyvalue :=
  if forallb is_digit name
  then Raise (Unmodelled "positional replacement field")
  else match assoc name kw with
       | Some v => Ok v
       | None => Raise (KeyError name)
       end.

(** Items are consumed in order, so the first failure met from the left is
    the one raised. *)
Fixpoint build (items : list item) (kw : kwargs) : result str :=
  match items with
  | [] => Ok []
  | Literal s :: rest =>
      r <- build rest kw ;;
      Ok (s ++ r)
  | Field name :: rest =>
      v <- get_field name kw ;;
      f <- format_value v ;;
      r <- build rest kw ;;
      Ok (f ++ r)
  | Stop e :: _ => Raise e
  end.

Definition format (fmt : str) (kw : kwargs) : result str :=
  build (markup fmt) kw.

(** ** JSON values and [json.dumps]

    Objects keep their keys in insertion order, as Python dictionaries do,
    so an object is an association list. *)

#[warnings="-register-all"]
Inductive json :=
| JString (s : str)
| JArray (items : list json)
| JObject (members : list (str * json)).

Definition hex4 (n : N) : str :=
  [hex_digit (n / 4096 mod 16); hex_digit (n / 256 mod 16);
   hex_digit (n / 16 mod 16); hex_digit (n mod 16)].

(** One character under [ensure_ascii=True], the default. *)
Definition json_escape (c : char) : str :=
  if c =? backslash then [backslash; backslash]
  else if c =? dquote then [backslash; dquote]
  else if c =? 8 then lit "\b"
  else if c =? 12 then lit "\f"
  else if c =? 10 then lit "\n"
  else if c =? 13 then lit "\r"
  else if c =? 9 then lit "\t"
  else if (32 <=? c) && (c <=? 126) then [c]
  else if c <? 65536 then lit "\u" ++ hex4 c
  else let n := c - 65536 in
       lit "\u" ++ hex4 (N.lor 55296 (N.land (N.shiftr n 10) 1023)) ++
       lit "\u" ++ hex4 (N.lor 56320 (N.land n 1023)).

Definition json_string (s : str) : str :=
  dquote :: flat_map json_escape s ++ [dquote].

(** Default separators: a comma and a space between items, a colon and a
    space between a key and its value. *)
Fixpoint json_dumps (j : json) : str :=
  match j with
  | JString s => json_string s
  | JArray items => lit "[" ++ join (lit ", ") (map json_dumps items) ++ lit "]"
  | JObject members =>
      lit "{" ++
      join (lit ", ")
           (map (fun kv => match kv with
                           | (k, v) => json_string k ++ lit ": " ++ json_dumps v
                           end) members) ++
      lit "}"
  end.

(** Dictionary update on objects. *)
Fixpoint assoc_set {A} (key : str) (v : A) (l : list (str * A))
  : list (str * A) :=
  match l with
  | [] => [(key, v)]
  | (k, w) :: rest =>
      if str_eqb k key then (k, v) :: rest else (k, w) :: assoc_set key v rest
  end.




(** ** Enumerations

    An [Enum] class with string values: its name and its members, each a
    member name and a value, in declaration order. *)

Record EnumClass := {
  enum_name : str;
  enum_members : list (str * str)
}.

(** Iterating over an enumeration yields its members in declaration order;
    a member whose value repeats an earlier one is an alias and is skipped. *)
Fixpoint canonical (seen : list str) (members : list (str * str))
  : list (str * str) :=
  match members with
  | [] => []
  | (n, v) :: rest =>
      if existsb (str_eqb v) seen then canonical seen rest
      else (n, v) :: canonical (v :: seen) rest
  end.

Definition enum_iter (E : EnumClass) : list (str * str) :=
  canonical [] (enum_members E).

(** [[e.value for e in E]] *)
Definition enum_values (E : EnumClass) : list str :=
  map snd (enum_iter E).

Definition EnumClass_eq_dec (E F : EnumClass) : {E = F} + {E <> F}.
Proof. repeat decide equality. Defined.

(** ** pydantic models and their JSON schema

    [schema_json] is modelled on pydantic 1.x, where it is the documented
    way to obtain a model's schema.  The fragment covers the two kinds of
    field declaration the script uses:

      name: str = Field(description=...)
      name: E                              (E an enumeration)

    Every such field is required.  The fields of a class form a dictionary,
    so their names are distinct. *)

Inductive FieldDecl :=
| StrField (name : str) (description : str)
| EnumField (name : str) (E : EnumClass).

Record ModelClass := {
  model_name : str;
  model_fields : list FieldDecl
}.

Definition field_alias (f : FieldDecl) : str :=
  match f with
  | StrField name _ => name
  | EnumField name _ => name
  end.

(** [str.title()] on ASCII: the first letter of each run of letters is
    upper-cased and the others are lower-cased.  Case mapping above ASCII
    needs the Unicode database. *)
Definition is_lower (c : char) : bool := (97 <=? c) && (c <=? 122).
Definition is_upper (c : char) : bool := (65 <=? c) && (c <=? 90).

Fixpoint title_from (previous_is_cased : bool) (s : str) : result str :=
  match s with
  | [] => Ok []
  | c :: rest =>
      if 128 <=? c then Raise (Unmodelled "case mapping above ASCII")
      else
        let c' := if previous_is_cased
                  then (if is_upper c then c + 32 else c)
                  else (if is_lower c then c - 32 else c) in
        r <- title_from (is_lower c || is_upper c) rest ;;
        Ok (c' :: r)
  end.

Definition title (s : str) : result str := title_from false s.

Definition replace (old new : char) (s : str) : str :=
  map (fun c => if c =? old then new else c) s.

(** The schema of an enumeration: its name, the default description, the
    values of its members as iterated, and the type of a string mix-in. *)
Definition enum_process_schema (E : EnumClass) : json :=
  JObject [(lit "title", JString (enum_name E));
           (lit "description", JString (lit "An enumeration."));
           (lit "enum", JArray (map JString (enum_values E)));
           (lit "type", JString (lit "string"))].

Definition default_ref (name : str) : str := lit "#/definitions/" ++ name.

(** The schema of one field and the definitions it contributes. *)
Definition field_schema (f : FieldDecl)
  : result (json * list (str * json)) :=
  match f with
  | StrField name description =>
      t <- title name ;;
      Ok (JObject ([(lit "title", JString (replace 95 32 t))] ++
                   (match description with
                    | [] => []
                    | _ => [(lit "description", JString description)]
                    end) ++
                   [(lit "type", JString (lit "string"))]),
          [])
  | EnumField _ E =>
      Ok (JObject [(lit "$ref", JString (default_ref (enum_name E)))],
          [(enum_name E, enum_process_schema E)])
  end.

Fixpoint update {A} (d : list (str * A)) (new : list (str * A))
  : list (str * A) :=
  match new with
  | [] => d
  | (k, v) :: rest => update (assoc_set k v d) rest
  end.

(** The loop over [__fields__]: properties, required names, definitions. *)
Fixpoint fields_schema (fields : list FieldDecl)
         (properties : list (str * json)) (required : list str)
         (definitions : list (str * json))
  : result (list (str * json) * list str * list (str * json)) :=
  match fields with
  | [] => Ok (properties, required, definitions)
  | f :: rest =>
      fd <- field_schema f ;;
      fields_schema rest
        (assoc_set (field_alias f) (fst fd) properties)
        (required ++ [field_alias f])
        (update definitions (snd fd))
  end.

(** Schema names are the class names as long as no two distinct classes
    share one; otherwise pydantic falls back on qualified names, which is
    outside this model. *)
Fixpoint enum_classes (fields : list FieldDecl) : list EnumClass :=
  match fields with
  | [] => []
  | StrField _ _ :: rest => enum_classes rest
  | EnumField _ E :: rest => E :: enum_classes rest
  end.

Definition name_clash (M : ModelClass) : bool :=
  let es := enum_classes (model_fields M) in
  existsb (fun E => str_eqb (enum_name E) (model_name M)) es ||
  existsb (fun E =>
    existsb (fun F => str_eqb (enum_name E) (enum_name F) &&
                      (if EnumClass_eq_dec E F then false else true)) es) es.

Definition model_schema (M : ModelClass) : result json :=
  if name_clash M then Raise (Unmodelled "classes sharing a name")
  else
    r <- fields_schema (model_fields M) [] [] [] ;;
    let '(properties, required, definitions) := r in
    Ok (JObject
          ([(lit "title", JString (model_name M));
            (lit "type", JString (lit "object"));
            (lit "properties", JObject properties)] ++
           (match required with
            | [] => []
            | _ => [(lit "required", JArray (map JString required))]
            end) ++
           (match definitions with
            | [] => []
            | _ => [(lit "definitions", JObject definitions)]
            end))).

Definition schema_json (M : ModelClass) : result str :=
  j <- model_schema M ;;
  Ok (json_dumps j).

(** * The script *)

(** ** [class Classification(str, Enum)] *)

Inductive Classification :=
| achievement
| affection
| enjoy_the_moment
| bonding
| leisure
| nature
| exercise.

(** The members in declaration order. *)
Definition Classification_declared : list Classification :=
  [achievement; affection; enjoy_the_moment; bonding; leisure; nature;
   exercise].

Definition member_name (c : Classification) : str :=
  match c with
  | achievement => lit "achievement"
  | affection => lit "affection"
  | enjoy_the_moment => lit "enjoy_the_moment"
  | bonding => lit "bonding"
  | leisure => lit "leisure"
  | nature => lit "nature"
  | exercise => lit "exercise"
  end.

Definition value (c : Classification) : str :=
  match c with
  | achievement => lit "achievement"
  | affection => lit "affection"
  | enjoy_the_moment => lit "enjoy_the_moment"
  | bonding => lit "bonding"
  | leisure => lit "leisure"
  | nature => lit "nature"
  | exercise => lit "exercise"
  end.

(** The class object that iteration and pydantic inspect. *)
Definition Classification_class : EnumClass := {|
  enum_name := lit "Classification";
  enum_members := map (fun c => (member_name c, value c)) Classification_declared
|}.

(** ** [class MomentClassification(BaseModel)]

    The model with its [classification] field annotated by the enumeration
    [E]; the script's model takes [Classification]. *)

Definition moment_classification (E : EnumClass) : ModelClass := {|
  model_name := lit "MomentClassification";
  model_fields :=
    [StrField (lit "explanation")
              (lit "An explanation of the classification decision.");
     EnumField (lit "classification") E]
|}.

Definition MomentClassification : ModelClass :=
  moment_classification Classification_class.

(** ** [prompt] *)

Definition prompt : str := lit
"You are a system designed to classify written descriptions of happy moments.
I will give you the text of a happy moment, and you should classify it into one of the following categories: {categories}
You will provide an explanation with your decision.

Return your response as JSON according to the following JSON schema:

```
{json_schema}
```

Do not return anything else except your response as JSON. Do not return a JSON schema.
Return an object that follows the schema.

Input: {text}
Output:
".

(** ** [text]

    [render_over E sample_text] is the expression the script assigns to
    [text], with the enumeration and the sample text left open:

      prompt.format(categories=[e.value for e in E],
                    json_schema=<model over E>.schema_json(),
                    text=sample_text).strip() *)

Definition render_over (E : EnumClass) (sample_text : str) : result str :=
  let categories := enum_values E in
  json_schema <- schema_json (moment_classification E) ;;
  formatted <- format prompt
                 [(lit "categories", VList categories);
                  (lit "json_schema", VStr json_schema);
                  (lit "text", VStr sample_text)] ;;
  Ok (strip formatted).

Definition render (sample_text : str) : result str :=
  render_over Classification_class sample_text.

Definition sample : str := lit
  "I've got my backyard mostly cleaned up and can get to work on some new projects out there.".

Definition text : result str := render sample.

(** [print(text)]: what the script writes to standard output. *)
Definition stdout : result str :=
  t <- text ;;
  Ok (t ++ lit "
").

(** ** The parts of the rendered prompt

    The text between the placeholders of [prompt], cut at the sentences the
    specification names, and the two derived parts. *)

Definition nl : str := [10].

Definition role_instruction : str := lit
  "You are a system designed to classify written descriptions of happy moments.".

Definition categories_lead : str := lit
  "I will give you the text of a happy moment, and you should classify it into one of the following categories: ".

Definition explanation_instruction : str := lit
  "You will provide an explanation with your decision.".

Definition return_json_instruction : str := lit
  "Return your response as JSON according to the following JSON schema:".

Definition fence : str := lit "```".

Definition nothing_else_instruction : str := lit
  "Do not return anything else except your response as JSON. Do not return a JSON schema.".

Definition return_object_instruction : str := lit
  "Return an object that follows the schema.".

Definition input_cue : str := lit "Input: ".

Definition output_cue : str := lit "Output:".

(** The category list as Python prints a list of strings. *)
Definition category_list : str := lit
  "['achievement', 'affection', 'enjoy_the_moment', 'bonding', 'leisure', 'nature', 'exercise']".

Definition single_quoted (s : str) : str := squote :: s ++ [squote].
Definition double_quoted (s : str) : str := dquote :: s ++ [dquote].

(** The schema of the model over an enumeration called [ename] whose
    iteration yields [values], written out by hand. *)
Definition schema_of (ename : str) (values : list str) : json :=
  JObject
    [(lit "title", JString (lit "MomentClassification"));
     (lit "type", JString (lit "object"));
     (lit "properties",
      JObject
        [(lit "explanation",
          JObject
            [(lit "title", JString (lit "Explanation"));
             (lit "description",
              JString (lit "An explanation of the classification decision."));
             (lit "type", JString (lit "string"))]);
         (lit "classification",
          JObject [(lit "$ref", JString (lit "#/definitions/" ++ ename))])]);
     (lit "required",
      JArray [JString (lit "explanation"); JString (lit "classification")]);
     (lit "definitions",
      JObject
        [(ename,
          JObject
            [(lit "title", JString ename);
             (lit "description", JString (lit "An enumeration."));
             (lit "enum", JArray (map JString values));
             (lit "type", JString (lit "string"))])])].

Definition expected_schema : json :=
  schema_of (lit "Classification") (map value Classification_declared).

Definition schema_text : str := json_dumps expected_schema.

(** The layout of a rendered prompt around the printed category list, the
    schema text and the sample text. *)
Definition layout_with (categories_repr schema sample_text : str)
  : list str :=
  [role_instruction; nl;
   categories_lead; categories_repr; nl;
   explanation_instruction; nl; nl;
   return_json_instruction; nl; nl;
   fence; nl; schema; nl; fence; nl; nl;
   nothing_else_instruction; nl;
   return_object_instruction; nl; nl;
   input_cue; sample_text; nl;
   output_cue].

Definition layout (sample_text : str) : list str :=
  layout_with category_list schema_text sample_text.

(** The order of parts claimed by the specification's output sentence: the
    formatting instructions as a whole ahead of the serialized schema. *)
Definition claimed_order (sample_text : str) : list str :=
  [role_instruction; category_list;
   return_json_instruction; nothing_else_instruction;
   return_object_instruction;
   schema_text; sample_text; output_cue].

(** "Each category value occurs exactly once in [t]". *)
Definition each_category_once (t : str) : Prop :=
  forall c : Classification, List.length (occurrences (value c) t) = 1%nat.

(** The order of parts the script produces: one formatting instruction
    ahead of the schema, the other two after it. *)
Definition source_order (sample_text : str) : list str :=
  [role_instruction; category_list;
   return_json_instruction; schema_text;
   nothing_else_instruction; return_object_instruction;
   sample_text; output_cue].

(** A bracketed list of quoted values, separated by a comma and a space. *)
Definition quoted_list (quote : str -> str) (values : list str) : str :=
  lit "[" ++ join (lit ", ") (map quote values) ++ lit "]".

(** The same categories declared with one more member, an alias of
    [exercise]. *)
Definition Classification_aliased : EnumClass := {|
  enum_name := lit "Classification";
  enum_members :=
    enum_members Classification_class ++ [(lit "sport", lit "exercise")]
|}.

(** ** Notions used to state further properties *)

(** The names of the template's replacement fields, in template order. *)
Definition placeholders : list str :=
  [lit "categories"; lit "json_schema"; lit "text"].

(** The first placeholder that the keyword arguments do not supply. *)
Definition first_missing (kw : kwargs) : option str :=
  find (fun key => match assoc key kw with
                   | Some _ => false
                   | None => true
                   end) placeholders.

(** The part of every render ahead of the sample text, and the part
    after it. *)
Definition frame_head : str := List.concat (firstn 24 (layout [])).
Definition frame_tail : str := nl ++ output_cue.

(** Printable ASCII, and the printable ASCII characters that neither [repr]
    nor [json.dumps] escapes. *)
Definition printable_ascii (c : char) : bool := (32 <=? c) && (c <=? 126).

Definition plain (c : char) : bool :=
  printable_ascii c &&
  negb (c =? squote) && negb (c =? dquote) && negb (c =? backslash).

(** Doubling every brace, the way a literal brace is written in a format
    string. *)
Definition escape_braces (s : str) : str :=
  flat_map (fun c => if (c =? lbrace) || (c =? rbrace) then [c; c] else [c]) s.


(** * Properties *)

(** ** Substrings and occurrences *)

Lemma starts_with_spec (sub s : str) :
  starts_with sub s = true <-> exists after, s = sub ++ after.
Proof.
  revert s; induction sub as [|a sub IH]; intros s; simpl.
  - split; [intros _; exists s; reflexivity | reflexivity].
  - destruct s as [|b s].
    + split; [discriminate | intros [after H]; discriminate].
    + rewrite andb_true_iff, N.eqb_eq, IH. split.
      * intros [-> [after ->]]. exists after; reflexivity.
      * intros [after H]. injection H as -> ->.
        split; [reflexivity | exists after; reflexivity].
Qed.

Lemma occurrences_from_spec (sub s : str) (i k : nat) :
  In k (occurrences_from i sub s) <->
  exists before after,
    s = before ++ sub ++ after /\ k = (i + List.length before)%nat.
Proof.
  revert i; induction s as [|c s IH]; intros i; simpl; rewrite in_app_iff.
  - split.
    + intros [H | []].
      destruct (starts_with sub []) eqn:E; [|destruct H].
      destruct H as [<- | []].
      apply starts_with_spec in E. destruct E as [after E].
      exists [], after. split; [exact E | simpl; lia].
    + intros [before [after [E ->]]]. left.
      destruct before; [|discriminate E]. simpl in E.
      assert (S : starts_with sub [] = true)
        by (apply starts_with_spec; exists after; exact E).
      rewrite S. left. simpl. lia.
  - split.
    + intros [H | H].
      * destruct (starts_with sub (c :: s)) eqn:E; [|destruct H].
        destruct H as [<- | []].
        apply starts_with_spec in E. destruct E as [after E].
        exists [], after. split; [exact E | simpl; lia].
      * apply IH in H. destruct H as [before [after [-> ->]]].
        exists (c :: before), after. split; [reflexivity | simpl; lia].
    + intros [before [after [E ->]]].
      destruct before as [|b before].
      * left. simpl in E.
        assert (S : starts_with sub (c :: s) = true)
          by (apply starts_with_spec; exists after; exact E).
        rewrite S. left. simpl. lia.
      * right. injection E as -> ->. apply IH.
        exists before, after. split; [reflexivity | simpl; lia].
Qed.

Lemma occurrences_spec (sub s : str) (i : nat) :
  In i (occurrences sub s) <-> occurs_at sub s i.
Proof.
  unfold occurrences, occurs_at. rewrite occurrences_from_spec.
  split; intros [before [after [E L]]]; exists before, after;
    (split; [exact E | simpl in *; lia]).
Qed.

Lemma in_order_prefix (parts : list str) (w t : str) :
  in_order parts t -> in_order parts (w ++ t).
Proof.
  destruct parts as [|p rest]; simpl; [trivial|].
  intros [before [after [-> H]]].
  exists (w ++ before), after. split; [|exact H].
  now rewrite <- app_assoc.
Qed.

Lemma in_order_tail (p : str) (parts : list str) (t : str) :
  in_order (p :: parts) t -> in_order parts t.
Proof.
  simpl. intros [before [after [-> H]]].
  rewrite app_assoc. now apply in_order_prefix.
Qed.

(** Two parts in order occur at offsets that do not overlap. *)
Lemma in_order_pair (a b : str) (parts : list str) (t : str) :
  in_order (a :: b :: parts) t ->
  exists i j, occurs_at a t i /\ occurs_at b t j /\
              (i + List.length a <= j)%nat.
Proof.
  simpl. intros [x [y [-> [x' [y' [-> _]]]]]].
  exists (List.length x), (List.length (x ++ a ++ x')).
  split; [|split].
  - exists x, (x' ++ b ++ y'). split; reflexivity.
  - exists (x ++ a ++ x'), y'. split; [|reflexivity].
    now rewrite <- !app_assoc.
  - rewrite !length_app. lia.
Qed.

(** ** [strip] *)

Lemma lstrip_app (p q : str) :
  lstrip p <> [] -> lstrip (p ++ q) = lstrip p ++ q.
Proof.
  induction p as [|c p IH]; simpl; [congruence|].
  destruct (py_isspace c); auto.
Qed.

Lemma rstrip_app (x b : str) :
  rstrip b <> [] -> rstrip (x ++ b) = x ++ rstrip b.
Proof.
  unfold rstrip. intros H. rewrite rev_app_distr, lstrip_app.
  - now rewrite rev_app_distr, rev_involutive.
  - intros E. apply H. now rewrite E.
Qed.

Lemma lstrip_suffix (s : str) : exists p, s = p ++ lstrip s.
Proof.
  induction s as [|c s [p IH]]; simpl.
  - exists []. reflexivity.
  - destruct (py_isspace c).
    + exists (c :: p). simpl. now rewrite <- IH.
    + exists []. reflexivity.
Qed.

Lemma lstrip_no_leading (s : str) : ~ has_leading_ws (lstrip s).
Proof.
  induction s as [|c s IH]; simpl.
  - intros [c [rest [E _]]]. discriminate E.
  - destruct (py_isspace c) eqn:Hc; [exact IH|].
    intros [d [rest [E Hd]]]. injection E as <- <-. congruence.
Qed.

Lemma rstrip_no_trailing (s : str) : ~ has_trailing_ws (rstrip s).
Proof.
  unfold rstrip. intros [init [c [E Hc]]].
  apply (lstrip_no_leading (rev s)).
  exists c, (rev init). split; [|exact Hc].
  rewrite <- (rev_involutive (lstrip (rev s))), E, rev_app_distr.
  reflexivity.
Qed.

Lemma rstrip_prefix (s : str) : exists r, s = rstrip s ++ r.
Proof.
  unfold rstrip. destruct (lstrip_suffix (rev s)) as [p E].
  exists (rev p).
  rewrite <- rev_app_distr, <- E. now rewrite rev_involutive.
Qed.

Lemma rstrip_keeps_head (s : str) :
  ~ has_leading_ws s -> ~ has_leading_ws (rstrip s).
Proof.
  intros H [c [rest [E Hc]]]. apply H.
  destruct (rstrip_prefix s) as [r Er].
  exists c, (rest ++ r). split; [|exact Hc].
  rewrite Er at 1. rewrite E. reflexivity.
Qed.

Lemma strip_no_outer_ws (s : str) :
  ~ has_leading_ws (strip s) /\ ~ has_trailing_ws (strip s).
Proof.
  unfold strip. split.
  - apply rstrip_keeps_head, lstrip_no_leading.
  - apply rstrip_no_trailing.
Qed.

(** ** The library models on small inputs *)

Example format_copies_escaped_braces :
  format (lit "{{x}} and {y}") [(lit "y", VStr (lit "{z}"))] =
  Ok (lit "{x} and {z}").
Proof. reflexivity. Qed.

Example format_missing_key :
  format (lit "a {b} }") [] = Raise (KeyError (lit "b")).
Proof. reflexivity. Qed.

Example format_single_closing_brace :
  format (lit "a } b") [] =
  Raise (ValueError "Single '}' encountered in format string").
Proof. reflexivity. Qed.

Example format_unclosed_field :
  format (lit "a {b") [(lit "b", VStr [])] =
  Raise (ValueError "expected '}' before end of string").
Proof. reflexivity. Qed.

Example repr_list_picks_quotes :
  repr_list [lit "it's"; lit "a\b"] =
  Ok (lit "[" ++ double_quoted (lit "it's") ++ lit ", " ++
      single_quoted (lit "a\\b") ++ lit "]").
Proof. reflexivity. Qed.

Example strip_drops_outer_whitespace :
  strip (nl ++ lit "  a b " ++ nl) = lit "a b".
Proof. reflexivity. Qed.

Example title_of_field_name :
  title (lit "enjoy_the_moment") = Ok (lit "Enjoy_The_Moment").
Proof. reflexivity. Qed.

Example json_string_escapes :
  json_string (lit "a\b" ++ nl ++ [233]) =
  double_quoted (lit "a\\b\n\u00e9").
Proof. reflexivity. Qed.

Example alias_is_not_iterated :
  enum_values Classification_aliased = enum_values Classification_class.
Proof. reflexivity. Qed.

(** ** The schema *)

Lemma enum_values_Classification :
  enum_values Classification_class = map value Classification_declared.
Proof. reflexivity. Qed.

Lemma name_clash_moment_classification (E : EnumClass) :
  name_clash (moment_classification E) =
  str_eqb (enum_name E) (lit "MomentClassification").
Proof.
  unfold name_clash, moment_classification. simpl.
  destruct (EnumClass_eq_dec E E) as [_ | N]; [|now destruct N].
  now rewrite andb_false_r, !orb_false_r.
Qed.

Lemma str_eqb_refl (s : str) : str_eqb s s = true.
Proof.
  unfold str_eqb. destruct (list_eq_dec N.eq_dec s s) as [_ | N];
    [reflexivity | now destruct N].
Qed.

Lemma model_schema_over (E : EnumClass) :
  model_schema (moment_classification E) =
  if str_eqb (enum_name E) (lit "MomentClassification")
  then Raise (Unmodelled "classes sharing a name")
  else Ok (schema_of (enum_name E) (enum_values E)).
Proof.
  unfold model_schema. rewrite name_clash_moment_classification.
  destruct (str_eqb (enum_name E) _); [reflexivity|].
  reflexivity.
Qed.


Lemma model_schema_MomentClassification :
  model_schema MomentClassification = Ok expected_schema.
Proof. reflexivity. Qed.

Lemma schema_json_MomentClassification :
  schema_json MomentClassification = Ok schema_text.
Proof. reflexivity. Qed.

(** ** The template *)

(** The template holds three replacement fields and no other brace. *)
Lemma markup_prompt :
  markup prompt =
  [Literal (role_instruction ++ nl ++ categories_lead);
   Field (lit "categories");
   Literal (nl ++ explanation_instruction ++ nl ++ nl ++
            return_json_instruction ++ nl ++ nl ++ fence ++ nl);
   Field (lit "json_schema");
   Literal (nl ++ fence ++ nl ++ nl ++ nothing_else_instruction ++ nl ++
            return_object_instruction ++ nl ++ nl ++ input_cue);
   Field (lit "text");
   Literal (nl ++ output_cue ++ nl)].
Proof. vm_compute. reflexivity. Qed.

(** Formatting the template: each value is copied where its field stands
    and is not read again. *)
Lemma format_prompt (categories : list str) (rc json_schema sample_text : str) :
  repr_list categories = Ok rc ->
  format prompt [(lit "categories", VList categories);
                 (lit "json_schema", VStr json_schema);
                 (lit "text", VStr sample_text)] =
  Ok ((role_instruction ++ nl ++ categories_lead) ++ rc ++
      (nl ++ explanation_instruction ++ nl ++ nl ++
       return_json_instruction ++ nl ++ nl ++ fence ++ nl) ++ json_schema ++
      (nl ++ fence ++ nl ++ nl ++ nothing_else_instruction ++ nl ++
       return_object_instruction ++ nl ++ nl ++ input_cue) ++ sample_text ++
      (nl ++ output_cue ++ nl)).
Proof.
  intros H. unfold format. rewrite markup_prompt. cbn [build].
  change (get_field (lit "categories") _) with (Ok (VList categories)).
  change (get_field (lit "json_schema") _) with (Ok (VStr json_schema)).
  change (get_field (lit "text") _) with (Ok (VStr sample_text)).
  cbn [bind format_value]. rewrite H. cbn [bind].
  now rewrite app_nil_r.
Qed.

Lemma repr_categories :
  repr_list (map value Classification_declared) = Ok category_list.
Proof. reflexivity. Qed.

(** The result of a render is determined by the name of the enumeration,
    the values its iteration yields, and the sample text. *)
Lemma render_over_unfold (E : EnumClass) (sample_text : str) :
  render_over E sample_text =
  if str_eqb (enum_name E) (lit "MomentClassification")
  then Raise (Unmodelled "classes sharing a name")
  else
    formatted <- format prompt
                   [(lit "categories", VList (enum_values E));
                    (lit "json_schema",
                     VStr (json_dumps (schema_of (enum_name E) (enum_values E))));
                    (lit "text", VStr sample_text)] ;;
    Ok (strip formatted).
Proof.
  unfold render_over, schema_json. rewrite model_schema_over.
  destruct (str_eqb (enum_name E) _); reflexivity.
Qed.


(** A render over any enumeration whose values can be printed has the
    layout [layout_with]: [strip] removes the final newline only. *)
Lemma render_over_layout (E : EnumClass) (rc sample_text : str) :
  str_eqb (enum_name E) (lit "MomentClassification") = false ->
  repr_list (enum_values E) = Ok rc ->
  render_over E sample_text =
  Ok (List.concat
        (layout_with rc
           (json_dumps (schema_of (enum_name E) (enum_values E)))
           sample_text)).
Proof.
  intros Hn Hr. rewrite render_over_unfold, Hn.
  rewrite (format_prompt _ _ _ _ Hr). cbn [bind].
  apply f_equal. unfold strip.
  set (head := role_instruction ++ nl ++ categories_lead).
  set (tail := nl ++ output_cue ++ nl).
  rewrite lstrip_app by (subst head; vm_compute; discriminate).
  change (lstrip head) with head.
  rewrite !app_assoc.
  rewrite rstrip_app by (subst tail; vm_compute; discriminate).
  change (rstrip tail) with (nl ++ output_cue).
  subst head. unfold layout_with. cbn [List.concat].
  rewrite <- ?app_assoc, ?app_nil_r. reflexivity.
Qed.

(** Every render of the script has the layout [layout sample_text]. *)
Lemma render_layout (sample_text : str) :
  render sample_text = Ok (List.concat (layout sample_text)).
Proof.
  unfold render, layout.
  exact (render_over_layout Classification_class category_list sample_text
           eq_refl repr_categories).
Qed.

Lemma in_order_here (p : str) (parts : list str) (t : str) :
  in_order parts t -> in_order (p :: parts) (p ++ t).
Proof.
  intros H. exists [], t. split; [reflexivity | exact H].
Qed.

Lemma render_is_stripped (E : EnumClass) (sample_text t : str) :
  render_over E sample_text = Ok t -> exists formatted, t = strip formatted.
Proof.
  unfold render_over.
  destruct (schema_json (moment_classification E)) as [js | e];
    [cbn [bind] | discriminate].
  destruct (format prompt _) as [formatted | e]; [cbn [bind] | discriminate].
  intros H. injection H as <-. exists formatted. reflexivity.
Qed.


(** * The claims *)




(** C3, as stated, fails on the demonstration render: the value
    [achievement] occurs there more than once. *)
Lemma each_category_once_fails :
  exists t, text = Ok t /\ ~ each_category_once t.
Proof.
  exists (List.concat (layout sample)). split; [apply render_layout|].
  intros H. specialize (H achievement). vm_compute in H. discriminate H.
Qed.

(** C3, amended. Every render holds the seven category values in two
    places, each time in declaration order: single-quoted in the category
    list and, after it, double-quoted in the [enum] list of the schema.  In
    the demonstration render each value occurs exactly twice, the first
    occurrences and the second occurrences both ascending in declaration
    order. *)
Theorem categories_listed_twice :
  (forall sample_text : str,
   exists a b c,
     render sample_text =
     Ok (a ++ quoted_list single_quoted (map value Classification_declared) ++
         b ++ quoted_list double_quoted (map value Classification_declared) ++
         c)) /\
  (exists t,
     text = Ok t /\
     (forall c : Classification,
        List.length (occurrences (value c) t) = 2%nat) /\
     map (fun c => occurrences (value c) t) Classification_declared =
       [[188; 811]; [203; 826]; [216; 839]; [236; 859]; [247; 870];
        [258; 881]; [268; 891]]%nat).
Proof.
  split.
  - intros sample_text.
    exists (List.concat (firstn 3 (layout sample_text))).
    exists (List.concat (firstn 9 (skipn 4 (layout sample_text)))
            ++ firstn 403 schema_text).
    exists (skipn 495 schema_text
            ++ List.concat (skipn 14 (layout sample_text))).
    rewrite render_layout. apply f_equal.
    change (quoted_list single_quoted (map value Classification_declared))
      with category_list.
    unfold layout, layout_with. cbn [firstn skipn List.concat Nat.add].
    assert (E : schema_text =
                firstn 403 schema_text ++
                quoted_list double_quoted (map value Classification_declared)
                ++ skipn 495 schema_text)
      by (vm_compute; reflexivity).
    rewrite E at 1.
    rewrite <- ?app_assoc, ?app_nil_r. reflexivity.
  - exists (List.concat (layout sample)).
    split; [apply render_layout|]. split.
    + intros c. destruct c; vm_compute; reflexivity.
    + vm_compute. reflexivity.
Qed.

(** C4. For every sample text the render succeeds and its result has no
    leading and no trailing whitespace, being the outcome of [strip]. *)
Theorem render_has_no_outer_whitespace :
  forall sample_text : str,
  exists t,
    render sample_text = Ok t /\
    ~ has_leading_ws t /\ ~ has_trailing_ws t.
Proof.
  intros sample_text.
  destruct (render sample_text) as [t | e] eqn:R.
  - exists t. split; [reflexivity|].
    destruct (render_is_stripped _ _ _ R) as [formatted ->].
    apply strip_no_outer_ws.
  - rewrite render_layout in R. discriminate R.
Qed.

(** C5. The demonstration render ends with the cue [Output:]: the cue is a
    suffix of the rendered prompt, so no character follows it. *)
Theorem text_ends_with_output_cue :
  exists before,
    text = Ok (before ++ lit "Output:") /\
    ends_with (lit "Output:") (before ++ lit "Output:") = true.
Proof.
  exists (List.concat (removelast (layout sample))). split.
  - unfold text. rewrite render_layout. apply f_equal.
    unfold layout, layout_with. cbn [removelast List.concat].
    change (lit "Output:") with output_cue.
    rewrite <- ?app_assoc, ?app_nil_r. reflexivity.
  - vm_compute. reflexivity.
Qed.

(** C6. Every render contains the sample text as one contiguous run of
    characters, unchanged; the demonstration render contains its sample
    sentence. *)
Theorem render_contains_sample_verbatim :
  (forall sample_text : str,
   exists before after,
     render sample_text = Ok (before ++ sample_text ++ after)) /\
  (exists before after,
     text =
     Ok (before ++
         lit "I've got my backyard mostly cleaned up and can get to work on some new projects out there."
         ++ after)).
Proof.
  assert (G : forall sample_text : str,
             exists before after,
               render sample_text = Ok (before ++ sample_text ++ after)).
  { intros sample_text.
    exists (List.concat (firstn 24 (layout sample_text))).
    exists (List.concat (skipn 25 (layout sample_text))).
    rewrite render_layout. apply f_equal.
    unfold layout, layout_with. cbn [firstn skipn List.concat].
    rewrite <- ?app_assoc, ?app_nil_r. reflexivity. }
  split; [exact G|]. exact (G sample).
Qed.

(** C7, as stated, fails on the demonstration render: the parts do not
    occur in the claimed order, because the instruction to return an object
    that follows the schema comes after the serialized schema, not before
    it. *)
Lemma claimed_order_fails :
  exists t, text = Ok t /\ ~ in_order (claimed_order sample) t.
Proof.
  exists (List.concat (layout sample)). split; [apply render_layout|].
  unfold claimed_order. intros H.
  do 4 apply in_order_tail in H.
  apply in_order_pair in H. destruct H as [i [j [Hi [Hj Hij]]]].
  apply occurrences_spec in Hi, Hj.
  vm_compute in Hi. vm_compute in Hj.
  destruct Hi as [<- | []]. destruct Hj as [<- | []].
  vm_compute in Hij. lia.
Qed.

(** C7, amended. The rendered output is a single string that contains, in
    order: the role-setting instruction, the category list, the instruction
    to return JSON according to the schema, the serialized schema, the
    instructions to return nothing else and to return an object rather than
    a schema, the literal input text, and finally the [Output:] cue.  The
    string begins with the role-setting instruction and ends with the
    cue. *)
Theorem prompt_parts_in_source_order :
  forall sample_text : str,
  exists t,
    render sample_text = Ok t /\
    in_order (source_order sample_text) t /\
    (exists after, t = role_instruction ++ after) /\
    (exists before, t = before ++ output_cue).
Proof.
  intros sample_text. exists (List.concat (layout sample_text)).
  split; [apply render_layout|]. split; [|split].
  - unfold source_order, layout, layout_with. cbn [List.concat].
    repeat first [apply in_order_here | apply in_order_prefix].
    exact I.
  - exists (List.concat (skipn 1 (layout sample_text))). reflexivity.
  - exists (List.concat (removelast (layout sample_text))).
    unfold layout, layout_with. cbn [removelast List.concat].
    rewrite <- ?app_assoc, ?app_nil_r. reflexivity.
Qed.


(** C9. The render is total: for every sample text, whatever characters it
    holds, the render returns a string; and formatting the template
    succeeds for every schema text and every sample text, since a
    substituted value is copied and not read as part of the template. *)
Theorem render_total :
  (forall sample_text : str, exists t, render sample_text = Ok t) /\
  (forall json_schema sample_text : str,
   exists formatted,
     format prompt
       [(lit "categories", VList (enum_values Classification_class));
        (lit "json_schema", VStr json_schema);
        (lit "text", VStr sample_text)] = Ok formatted).
Proof.
  split.
  - intros sample_text. eexists. apply render_layout.
  - intros json_schema sample_text. eexists.
    apply (format_prompt _ _ _ _ repr_categories).
Qed.

(** C10. In the demonstration render the category placeholder is filled
    with the Python list representation of the category values, bracketed,
    comma-separated and single-quoted, which holds no double quote; the
    schema text holds no apostrophe; and the double-quoted form of
    [achievement] occurs exactly once, inside the one occurrence of the
    schema text. *)
Theorem double_quoted_achievement_once :
  exists t before after,
    text = Ok t /\
    t = before ++ categories_lead ++
        lit "['achievement', 'affection', 'enjoy_the_moment', 'bonding', 'leisure', 'nature', 'exercise']"
        ++ nl ++ after /\
    category_list =
      quoted_list single_quoted (map value Classification_declared) /\
    existsb (N.eqb dquote) category_list = false /\
    existsb (N.eqb squote) schema_text = false /\
    occurrences (double_quoted (lit "achievement")) t = [810%nat] /\
    occurrences schema_text t = [406%nat] /\
    (406 <= 810)%nat /\
    (810 + List.length (double_quoted (lit "achievement"))
     <= 406 + List.length schema_text)%nat.
Proof.
  exists (List.concat (layout sample)).
  exists (List.concat (firstn 2 (layout sample))).
  exists (List.concat (skipn 5 (layout sample))).
  split; [apply render_layout|].
  split.
  { unfold layout, layout_with. cbn [firstn skipn List.concat].
    change (lit "['achievement', 'affection', 'enjoy_the_moment', 'bonding', 'leisure', 'nature', 'exercise']")
      with category_list.
    rewrite <- ?app_assoc, ?app_nil_r. reflexivity. }
  repeat split; try (vm_compute; reflexivity).
  - lia.
  - vm_compute. lia.
Qed.

(** * Further properties of the script *)

(** ** The frame around the sample text *)

Lemma render_frame (sample_text : str) :
  render sample_text = Ok (frame_head ++ sample_text ++ frame_tail).
Proof.
  rewrite render_layout. apply f_equal.
  unfold frame_head, frame_tail, layout, layout_with.
  cbn [firstn List.concat].
  rewrite <- ?app_assoc, ?app_nil_r. reflexivity.
Qed.

(** X1. Two sample texts that render to the same prompt are the same text:
    the prompt determines the sample it was built from. *)
Theorem render_injective :
  forall s1 s2 : str, render s1 = render s2 -> s1 = s2.
Proof.
  intros s1 s2 H. rewrite !render_frame in H.
  assert (E : frame_head ++ s1 ++ frame_tail = frame_head ++ s2 ++ frame_tail)
    by congruence.
  apply app_inv_head in E. apply app_inv_tail in E. exact E.
Qed.

Lemma render_injective_witness :
  render sample = render sample /\ sample = sample.
Proof.
  split; [reflexivity|].
  apply (render_injective sample sample). reflexivity.
Defined.

(** X2. Whatever the sample text (empty, made of whitespace, holding braces
    or cues of its own), it stands at offset 1065 of the prompt and the
    prompt is 1073 characters longer than it. *)
Theorem render_size_and_offset :
  forall sample_text : str,
  exists t,
    render sample_text = Ok t /\
    List.length t = (1073 + List.length sample_text)%nat /\
    occurs_at sample_text t 1065.
Proof.
  intros sample_text. exists (frame_head ++ sample_text ++ frame_tail).
  split; [apply render_frame|]. split.
  - rewrite !length_app.
    change (List.length frame_head) with 1065%nat.
    change (List.length frame_tail) with 8%nat. lia.
  - exists frame_head, frame_tail. split; reflexivity.
Qed.

(** ** [strip] and [print] *)

Lemma lstrip_fixed (t : str) : ~ has_leading_ws t -> lstrip t = t.
Proof.
  intros H. destruct t as [|c t]; [reflexivity|]. simpl.
  destruct (py_isspace c) eqn:Hc; [|reflexivity].
  exfalso. apply H. exists c, t. split; [reflexivity | exact Hc].
Qed.

Lemma rstrip_fixed (t : str) : ~ has_trailing_ws t -> rstrip t = t.
Proof.
  intros H. unfold rstrip. rewrite lstrip_fixed; [apply rev_involutive|].
  intros [c [rest [E Hc]]]. apply H. exists (rev rest), c.
  split; [|exact Hc].
  rewrite <- (rev_involutive t), E. reflexivity.
Qed.

Lemma strip_fixed (t : str) :
  ~ has_leading_ws t -> ~ has_trailing_ws t -> strip t = t.
Proof.
  intros Hl Ht. unfold strip. rewrite (lstrip_fixed t Hl).
  apply rstrip_fixed, Ht.
Qed.

Lemma lstrip_whitespace_app (w q : str) :
  forallb py_isspace w = true -> lstrip (w ++ q) = lstrip q.
Proof.
  induction w as [|c w IH]; simpl; [reflexivity|].
  rewrite andb_true_iff. intros [Hc Hw]. rewrite Hc. apply IH, Hw.
Qed.

Lemma lstrip_whitespace (w : str) :
  forallb py_isspace w = true -> lstrip w = [].
Proof.
  intros H. rewrite <- (app_nil_r w). now rewrite lstrip_whitespace_app.
Qed.

Lemma rstrip_app_whitespace (t w : str) :
  forallb py_isspace w = true -> rstrip (t ++ w) = rstrip t.
Proof.
  intros H. unfold rstrip. rewrite rev_app_distr, lstrip_whitespace_app.
  - reflexivity.
  - rewrite forallb_forall in *. intros c Hc. apply H.
    now apply in_rev.
Qed.

(** X3. [strip] is idempotent: a string that has been stripped is left
    unchanged by stripping it again. *)
Theorem strip_idempotent :
  forall s : str, strip (strip s) = strip s.
Proof.
  intros s. destruct (strip_no_outer_ws s) as [Hl Ht].
  apply strip_fixed; assumption.
Qed.

(** X4. Stripping removes exactly the outer whitespace: when [body] neither
    begins nor ends with a whitespace character and [w1], [w2] are runs of
    whitespace, stripping [w1 ++ body ++ w2] gives [body].  Whitespace
    inside [body] stays. *)
Theorem strip_removes_outer_whitespace_only :
  forall w1 body w2 : str,
    forallb py_isspace w1 = true ->
    forallb py_isspace w2 = true ->
    ~ has_leading_ws body ->
    ~ has_trailing_ws body ->
    strip (w1 ++ body ++ w2) = body.
Proof.
  intros w1 body w2 H1 H2 Hl Ht. unfold strip.
  rewrite lstrip_whitespace_app by exact H1.
  destruct body as [|c body].
  - simpl. rewrite lstrip_whitespace by exact H2. reflexivity.
  - assert (Hc : py_isspace c = false).
    { destruct (py_isspace c) eqn:Hc; [|reflexivity].
      exfalso. apply Hl. exists c, body. split; [reflexivity | exact Hc]. }
    simpl. rewrite Hc.
    change (c :: body ++ w2) with ((c :: body) ++ w2).
    rewrite rstrip_app_whitespace by exact H2.
    apply rstrip_fixed, Ht.
Qed.

Lemma strip_removes_outer_whitespace_only_witness :
  strip (lit "  " ++ lit "Input: a b" ++ nl) = lit "Input: a b".
Proof.
  apply (strip_removes_outer_whitespace_only
           (lit "  ") (lit "Input: a b") nl).
  - reflexivity.
  - reflexivity.
  - intros [c [rest [E Hc]]]. injection E as <- <-. discriminate Hc.
  - intros [init [c [E Hc]]].
    apply (f_equal (@rev char)) in E. rewrite rev_app_distr in E.
    simpl in E. injection E as <- _. discriminate Hc.
Defined.



(** ** The template and its keyword arguments *)

Lemma get_field_placeholder (key : str) (kw : kwargs) :
  In key placeholders ->
  get_field key kw =
  match assoc key kw with
  | Some v => Ok v
  | None => Raise (KeyError key)
  end.
Proof.
  intros [<- | [<- | [<- | []]]]; reflexivity.
Qed.

(** Formatting the template reads the keyword arguments through three
    lookups, in template order. *)
Lemma format_prompt_lookups (kw : kwargs) :
  format prompt kw =
  vc <- get_field (lit "categories") kw ;;
  fc <- format_value vc ;;
  vj <- get_field (lit "json_schema") kw ;;
  fj <- format_value vj ;;
  vt <- get_field (lit "text") kw ;;
  ft <- format_value vt ;;
  Ok ((role_instruction ++ nl ++ categories_lead) ++ fc ++
      (nl ++ explanation_instruction ++ nl ++ nl ++
       return_json_instruction ++ nl ++ nl ++ fence ++ nl) ++ fj ++
      (nl ++ fence ++ nl ++ nl ++ nothing_else_instruction ++ nl ++
       return_object_instruction ++ nl ++ nl ++ input_cue) ++ ft ++
      (nl ++ output_cue ++ nl)).
Proof.
  unfold format. rewrite markup_prompt. cbn [build].
  destruct (get_field (lit "categories") kw) as [vc | e];
    [cbn [bind] | reflexivity].
  destruct (format_value vc) as [fc | e]; [cbn [bind] | reflexivity].
  destruct (get_field (lit "json_schema") kw) as [vj | e];
    [cbn [bind] | reflexivity].
  destruct (format_value vj) as [fj | e]; [cbn [bind] | reflexivity].
  destruct (get_field (lit "text") kw) as [vt | e];
    [cbn [bind] | reflexivity].
  destruct (format_value vt) as [ft | e]; [cbn [bind] | reflexivity].
  now rewrite app_nil_r.
Qed.

(** X6. When the keyword arguments leave out a placeholder of the template
    and the values they do supply can be formatted, [format] raises
    [KeyError] for the first placeholder left out, in template order. *)
Theorem format_prompt_missing_key :
  forall (kw : kwargs) (key : str),
    first_missing kw = Some key ->
    (forall k v, assoc k kw = Some v -> exists r, format_value v = Ok r) ->
    format prompt kw = Raise (KeyError key).
Proof.
  intros kw key Hm Hv. rewrite format_prompt_lookups.
  rewrite !get_field_placeholder by (simpl; tauto).
  unfold first_missing, placeholders in Hm. cbn [find] in Hm.
  destruct (assoc (lit "categories") kw) as [vc |] eqn:Ec;
    [|injection Hm as <-; reflexivity].
  destruct (Hv _ _ Ec) as [fc Fc]. cbn [bind]. rewrite Fc. cbn [bind].
  destruct (assoc (lit "json_schema") kw) as [vj |] eqn:Ej;
    [|injection Hm as <-; reflexivity].
  destruct (Hv _ _ Ej) as [fj Fj]. cbn [bind]. rewrite Fj. cbn [bind].
  destruct (assoc (lit "text") kw) as [vt |] eqn:Et;
    [discriminate Hm | injection Hm as <-; reflexivity].
Qed.

Lemma format_prompt_missing_key_witness :
  format prompt [(lit "text", VStr sample); (lit "categories", VList [])] =
  Raise (KeyError (lit "json_schema")).
Proof.
  apply (format_prompt_missing_key
           [(lit "text", VStr sample); (lit "categories", VList [])]
           (lit "json_schema")).
  - reflexivity.
  - intros k v H. cbn [assoc] in H.
    destruct (str_eqb (lit "text") k).
    + injection H as <-. eexists. reflexivity.
    + destruct (str_eqb (lit "categories") k); [|discriminate H].
      injection H as <-. eexists. reflexivity.
Defined.

(** X7. The result of formatting the template depends on the keyword
    arguments only through the values of its three placeholders: the order
    of the arguments and any further argument make no difference. *)
Theorem format_prompt_ignores_other_kwargs :
  forall kw1 kw2 : kwargs,
    (forall key, In key placeholders -> assoc key kw1 = assoc key kw2) ->
    format prompt kw1 = format prompt kw2.
Proof.
  intros kw1 kw2 H. rewrite !format_prompt_lookups.
  rewrite !get_field_placeholder by (simpl; tauto).
  rewrite !H by (simpl; tauto). reflexivity.
Qed.

Lemma format_prompt_ignores_other_kwargs_witness :
  format prompt [(lit "categories", VList []);
                 (lit "json_schema", VStr (lit "{}"));
                 (lit "text", VStr sample)] =
  format prompt [(lit "text", VStr sample);
                 (lit "unused", VStr (lit "{text}"));
                 (lit "json_schema", VStr (lit "{}"));
                 (lit "categories", VList [])].
Proof.
  apply format_prompt_ignores_other_kwargs.
  intros key [<- | [<- | [<- | []]]]; reflexivity.
Defined.

(** ** Literal braces *)

Lemma escape_braces_cons (c : char) (s : str) :
  escape_braces (c :: s) =
  (if (c =? lbrace) || (c =? rbrace) then [c; c] else [c]) ++ escape_braces s.
Proof. reflexivity. Qed.

Lemma scan_doubled_lbrace (acc rest : str) :
  scan (InText acc) (lbrace :: lbrace :: rest) =
  scan (InText (lbrace :: acc)) rest.
Proof. reflexivity. Qed.

Lemma scan_doubled_rbrace (acc rest : str) :
  scan (InText acc) (rbrace :: rbrace :: rest) =
  scan (InText (rbrace :: acc)) rest.
Proof. reflexivity. Qed.

Lemma scan_text_char (acc rest : str) (c : char) :
  (c =? lbrace) = false -> (c =? rbrace) = false ->
  scan (InText acc) (c :: rest) = scan (InText (c :: acc)) rest.
Proof.
  intros Hl Hr. cbn [scan scan_step]. rewrite Hl, Hr. reflexivity.
Qed.

Lemma scan_escape_braces (acc s : str) :
  scan (InText acc) (escape_braces s) = [Literal (rev acc ++ s)].
Proof.
  revert acc. induction s as [|c s IH]; intros acc.
  - simpl. now rewrite app_nil_r.
  - rewrite escape_braces_cons.
    destruct (c =? lbrace) eqn:Hl; [|destruct (c =? rbrace) eqn:Hr];
      cbn [orb app].
    + apply N.eqb_eq in Hl. subst c.
      rewrite scan_doubled_lbrace, IH. simpl. now rewrite <- app_assoc.
    + apply N.eqb_eq in Hr. subst c.
      rewrite scan_doubled_rbrace, IH. simpl. now rewrite <- app_assoc.
    + rewrite (scan_text_char _ _ _ Hl Hr), IH. simpl.
      now rewrite <- app_assoc.
Qed.

(** X8. A format string in which every brace is doubled formats to the
    original text, whatever the keyword arguments: doubling is how literal
    braces get through [format], and text without braces is copied as it
    is. *)
Theorem format_escape_braces :
  forall (s : str) (kw : kwargs), format (escape_braces s) kw = Ok s.
Proof.
  intros s kw. unfold format, markup.
  rewrite scan_escape_braces. simpl. now rewrite app_nil_r.
Qed.

(** ** Iterating over an enumeration *)

Lemma str_eqb_eq (a b : str) : str_eqb a b = true <-> a = b.
Proof.
  unfold str_eqb. destruct (list_eq_dec N.eq_dec a b) as [E | N].
  - split; intros _; [exact E | reflexivity].
  - split; [discriminate | intros E; now destruct N].
Qed.

Lemma existsb_str_eqb (v : str) (seen : list str) :
  existsb (str_eqb v) seen = true <-> In v seen.
Proof.
  rewrite existsb_exists. split.
  - intros [x [Hx E]]. apply str_eqb_eq in E. now subst x.
  - intros H. exists v. split; [exact H | apply str_eqb_refl].
Qed.

Lemma canonical_values (members : list (str * str)) (seen : list str) :
  NoDup (map snd (canonical seen members)) /\
  (forall v, In v (map snd (canonical seen members)) <->
             In v (map snd members) /\ ~ In v seen).
Proof.
  revert seen. induction members as [|[n v] rest IH]; intros seen; simpl.
  - split; [constructor | intros v; tauto].
  - destruct (existsb (str_eqb v) seen) eqn:Hs.
    + apply existsb_str_eqb in Hs.
      destruct (IH seen) as [Hn Hi]. split; [exact Hn|].
      intros w. rewrite Hi. split.
      * intros [Hw Hns]. split; [right; exact Hw | exact Hns].
      * intros [[<- | Hw] Hns]; [contradiction | split; assumption].
    + assert (Hv : ~ In v seen).
      { intros H. apply existsb_str_eqb in H. congruence. }
      destruct (IH (v :: seen)) as [Hn Hi]. simpl. split.
      * constructor; [|exact Hn].
        rewrite Hi. intros [_ H]. apply H. left. reflexivity.
      * intros w. rewrite Hi. simpl. split.
        -- intros [<- | [Hw Hns]].
           ++ split; [left; reflexivity | exact Hv].
           ++ split; [right; exact Hw | tauto].
        -- intros [[E | Hw] Hns].
           ++ left. exact E.
           ++ destruct (list_eq_dec N.eq_dec v w) as [E | N].
              ** left. exact E.
              ** right. split; [exact Hw|]. intros [E | H]; tauto.
Qed.

Lemma canonical_distinct (members : list (str * str)) (seen : list str) :
  NoDup (map snd members) ->
  (forall v, In v (map snd members) -> ~ In v seen) ->
  canonical seen members = members.
Proof.
  revert seen. induction members as [|[n v] rest IH]; intros seen Hn Hs;
    simpl; [reflexivity|].
  simpl in Hn. apply NoDup_cons_iff in Hn. destruct Hn as [Hv Hn].
  destruct (existsb (str_eqb v) seen) eqn:He.
  - apply existsb_str_eqb in He. exfalso.
    apply (Hs v); [left; reflexivity | exact He].
  - f_equal. apply IH; [exact Hn|].
    intros w Hw [E | H].
    + subst w. contradiction.
    + apply (Hs w); [right; exact Hw | exact H].
Qed.

(** X9. Iterating over an enumeration yields no value twice, and yields
    exactly the values its members declare: an alias adds nothing and no
    declared value is lost. *)
Theorem enum_values_distinct_and_complete :
  forall E : EnumClass,
    NoDup (enum_values E) /\
    (forall v, In v (enum_values E) <-> In v (map snd (enum_members E))).
Proof.
  intros E. unfold enum_values, enum_iter.
  destruct (canonical_values (enum_members E) []) as [Hn Hi].
  split; [exact Hn|].
  intros v. rewrite Hi. simpl. tauto.
Qed.

(** X10. When the members of an enumeration declare distinct values, as
    those of [Classification] do, iteration yields every member, in
    declaration order. *)
Theorem enum_iter_declaration_order :
  forall E : EnumClass,
    NoDup (map snd (enum_members E)) ->
    enum_iter E = enum_members E /\
    enum_values E = map snd (enum_members E).
Proof.
  intros E H.
  assert (I : enum_iter E = enum_members E).
  { unfold enum_iter. apply canonical_distinct; [exact H|].
    intros v _ []. }
  split; [exact I|]. unfold enum_values. now rewrite I.
Qed.

Lemma enum_iter_declaration_order_witness :
  enum_iter Classification_class = enum_members Classification_class /\
  enum_values Classification_class =
  map snd (enum_members Classification_class).
Proof.
  apply (enum_iter_declaration_order Classification_class).
  vm_compute.
  repeat (constructor; [simpl; intuition discriminate|]).
  constructor.
Defined.

(** ** Category values that need no escaping *)

Lemma plain_facts (c : char) :
  plain c = true ->
  32 <= c /\ c <= 126 /\ c <> 39 /\ c <> 34 /\ c <> 92.
Proof.
  unfold plain, printable_ascii, squote, dquote, backslash.
  rewrite !andb_true_iff, !negb_true_iff, !N.leb_le, !N.eqb_neq. tauto.
Qed.

Ltac decide_comparisons :=
  repeat match goal with
         | |- context [?a =? ?b] => destruct (N.eqb_spec a b); try lia
         | |- context [?a <? ?b] => destruct (N.ltb_spec a b); try lia
         | |- context [?a <=? ?b] => destruct (N.leb_spec a b); try lia
         end.

Lemma repr_char_plain (c : char) :
  plain c = true -> repr_char squote c = Ok [c].
Proof.
  intros H. apply plain_facts in H.
  unfold repr_char, squote, backslash. decide_comparisons. reflexivity.
Qed.

Lemma repr_chars_plain (s : str) :
  forallb plain s = true -> repr_chars squote s = Ok s.
Proof.
  induction s as [|c s IH]; simpl; [reflexivity|].
  rewrite andb_true_iff. intros [Hc Hs].
  rewrite (repr_char_plain c Hc), (IH Hs). reflexivity.
Qed.

Lemma repr_quote_plain (s : str) :
  forallb plain s = true -> repr_quote s = squote.
Proof.
  intros H. unfold repr_quote.
  assert (E : existsb (N.eqb squote) s = false).
  { induction s as [|c s IH]; [reflexivity|].
    cbn [forallb] in H. apply andb_true_iff in H. destruct H as [Hc Hs].
    cbn [existsb]. rewrite (IH Hs), orb_false_r. apply plain_facts in Hc.
    apply N.eqb_neq. unfold squote. lia. }
  rewrite E. reflexivity.
Qed.

Lemma repr_str_plain (s : str) :
  forallb plain s = true -> repr_str s = Ok (single_quoted s).
Proof.
  intros H. unfold repr_str.
  rewrite (repr_quote_plain s H), (repr_chars_plain s H). reflexivity.
Qed.

Lemma json_escape_plain (c : char) :
  plain c = true -> json_escape c = [c].
Proof.
  intros H. apply plain_facts in H.
  unfold json_escape, dquote, backslash. decide_comparisons. reflexivity.
Qed.

Lemma json_string_plain (s : str) :
  forallb plain s = true -> json_string s = double_quoted s.
Proof.
  intros H. unfold json_string, double_quoted. do 2 f_equal.
  induction s as [|c s IH]; simpl; [reflexivity|].
  simpl in H. apply andb_true_iff in H. destruct H as [Hc Hs].
  rewrite (json_escape_plain c Hc), (IH Hs). reflexivity.
Qed.

Lemma json_dumps_array (items : list json) :
  json_dumps (JArray items) =
  lit "[" ++ join (lit ", ") (map json_dumps items) ++ lit "]".
Proof. reflexivity. Qed.

Lemma json_dumps_object (members : list (str * json)) :
  json_dumps (JObject members) =
  lit "{" ++
  join (lit ", ")
       (map (fun kv => json_string (fst kv) ++ lit ": " ++ json_dumps (snd kv))
            members) ++
  lit "}".
Proof.
  cbn [json_dumps]. do 3 f_equal.
  apply map_ext. intros [k v]. reflexivity.
Qed.

(** X11. For category values made of printable ASCII characters other than
    the two quotes and the backslash, the list that fills the category
    placeholder and the [enum] array of the schema print the same values in
    the same order and differ only in the quote: apostrophes in the first,
    double quotes in the second. *)
Theorem plain_values_print_quoted :
  forall values : list str,
    Forall (fun v => forallb plain v = true) values ->
    repr_list values = Ok (quoted_list single_quoted values) /\
    json_dumps (JArray (map JString values)) =
      quoted_list double_quoted values.
Proof.
  intros values H. split.
  - unfold repr_list, quoted_list.
    assert (E : map_result repr_str values = Ok (map single_quoted values)).
    { induction H as [|v values Hv _ IH]; simpl; [reflexivity|].
      rewrite (repr_str_plain v Hv), IH. reflexivity. }
    rewrite E. reflexivity.
  - unfold quoted_list. rewrite json_dumps_array, map_map. do 3 f_equal.
    induction H as [|v values Hv _ IH]; [reflexivity|].
    cbn [map]. rewrite IH.
    change (json_dumps (JString v)) with (json_string v).
    rewrite (json_string_plain v Hv). reflexivity.
Qed.

Lemma plain_values_print_quoted_witness :
  repr_list (enum_values Classification_class) =
    Ok (quoted_list single_quoted (enum_values Classification_class)) /\
  json_dumps (JArray (map JString (enum_values Classification_class))) =
    quoted_list double_quoted (enum_values Classification_class).
Proof.
  apply (plain_values_print_quoted (enum_values Classification_class)).
  vm_compute. repeat constructor.
Defined.

(** ** The schema text is ASCII *)

Lemma json_nested_ind (P : json -> Prop)
      (HS : forall s, P (JString s))
      (HA : forall items, Forall P items -> P (JArray items))
      (HO : forall members,
          Forall (fun kv => P (snd kv)) members -> P (JObject members)) :
  forall j, P j.
Proof.
  fix IH 1. intros [s | items | members].
  - apply HS.
  - apply HA. induction items as [|x items IHi]; constructor;
      [apply IH | exact IHi].
  - apply HO. induction members as [|[k v] members IHm]; constructor;
      [apply IH | exact IHm].
Qed.

Lemma hex_digit_printable (d : N) :
  d < 16 -> printable_ascii (hex_digit d) = true.
Proof.
  intros H. unfold printable_ascii, hex_digit.
  destruct (N.ltb_spec d 10); apply andb_true_iff; rewrite !N.leb_le; lia.
Qed.

Lemma hex4_printable (n : N) : forallb printable_ascii (hex4 n) = true.
Proof.
  unfold hex4. cbn [forallb].
  rewrite !hex_digit_printable; [reflexivity | | | |];
    apply N.mod_lt; discriminate.
Qed.

Lemma json_escape_printable (c : char) :
  forallb printable_ascii (json_escape c) = true.
Proof.
  unfold json_escape.
  destruct (c =? backslash); [reflexivity|].
  destruct (c =? dquote); [reflexivity|].
  destruct (c =? 8); [reflexivity|].
  destruct (c =? 12); [reflexivity|].
  destruct (c =? 10); [reflexivity|].
  destruct (c =? 13); [reflexivity|].
  destruct (c =? 9); [reflexivity|].
  destruct ((32 <=? c) && (c <=? 126)) eqn:Hp.
  - cbn [forallb]. unfold printable_ascii. rewrite Hp. reflexivity.
  - destruct (c <? 65536).
    + rewrite forallb_app, hex4_printable. reflexivity.
    + rewrite !forallb_app, !hex4_printable. reflexivity.
Qed.

Lemma json_string_printable (s : str) :
  forallb printable_ascii (json_string s) = true.
Proof.
  unfold json_string. cbn [forallb].
  rewrite forallb_app. cbn [forallb].
  change (printable_ascii dquote) with true. rewrite andb_true_r. cbn [andb].
  induction s as [|c s IH]; [reflexivity|].
  cbn [flat_map]. now rewrite forallb_app, json_escape_printable, IH.
Qed.

Lemma join_printable (sep : str) (items : list str) :
  forallb printable_ascii sep = true ->
  Forall (fun x => forallb printable_ascii x = true) items ->
  forallb printable_ascii (join sep items) = true.
Proof.
  intros Hs H. induction H as [|x items Hx Hi IH]; [reflexivity|].
  destruct items as [|y items]; [exact Hx|].
  change (join sep (x :: y :: items)) with (x ++ sep ++ join sep (y :: items)).
  now rewrite !forallb_app, Hx, Hs, IH.
Qed.

(** X12. Whatever strings a JSON value holds (a description or category
    values with control characters, quotes or characters above ASCII), its
    serialization consists of printable ASCII characters only: every other
    character is written as an escape. *)
Theorem json_dumps_printable_ascii :
  forall j : json, forallb printable_ascii (json_dumps j) = true.
Proof.
  induction j as [s | items IH | members IH] using json_nested_ind.
  - apply json_string_printable.
  - rewrite json_dumps_array, !forallb_app. cbn [lit].
    rewrite join_printable; [reflexivity | reflexivity |].
    induction IH as [|x items Hx _ IHi]; constructor; assumption.
  - rewrite json_dumps_object, !forallb_app.
    rewrite join_printable; [reflexivity | reflexivity |].
    induction IH as [|[k v] members Hv _ IHm]; constructor; [|exact IHm].
    cbn [fst snd] in *.
    now rewrite !forallb_app, json_string_printable, Hv.
Qed.

(** ** Renders over any category set *)




(** ** The schema of any model of such fields *)












